(** * react-mutex: the guard [useMutex] and its resource views

    A shallow embedding of [src/mutex.ts] and [src/error.ts].

    The JavaScript heap that the hook and its closures share is modelled
    explicitly: the mutable cell [mutexRef.current], the runtime's supply
    of symbols, and the resource views allocated so far.  Every function of
    the source is a computation in a small state-and-exception monad in
    which a [throw] keeps the heap it was raised in, as in JavaScript. *)

From Stdlib Require Import List Arith Bool Lia ZArith.
Import ListNotations.
From Stdlib Require String.
Import String.StringSyntax.
Delimit Scope string_scope with string.

Set Implicit Arguments.

(** ** error.ts *)

Inductive Error : Type :=
| MutexLockedError
| MutexAccessRevokedError.

(** ** Symbols

    [Symbol()] returns a value that is [===] to no symbol created before.
    The runtime is modelled as a counter: the n-th symbol ever created is
    the number n. *)

Definition symbol : Type := nat.

(** [a === b] at type [symbol | null]. *)
Definition strict_eq (a b : option symbol) : bool :=
  match a, b with
  | None, None => true
  | Some x, Some y => Nat.eqb x y
  | _, _ => false
  end.

(** ** mutex.ts: the data *)

(** [MutexInternal<T>]: the value and the borrow token ([symbol | null]). *)
Record MutexInternal (T : Type) : Type := mkMutexInternal {
  value : T;
  borrow : option symbol
}.

(** [MutexResource<T>]: a frozen object.  Its methods are closures over the
    constant [token] and over [mutexRef], so the token determines it; the
    field [[borrow]] of the view holds that same token. *)
Record MutexResource : Type := mkMutexResource {
  token : symbol
}.

(** The part of the heap the hook works on. *)
Record Heap (T : Type) : Type := mkHeap {
  mutexRef : MutexInternal T;      (* mutexRef.current *)
  symbols : nat;                   (* symbols created so far *)
  views : list MutexResource       (* views returned by createMutexResource *)
}.

(** The two overloads of [useMutex]: an initial value, or an initializer
    with its parameter. *)
Inductive Init (T : Type) : Type :=
| InitialValue (initialValue : T)
| Initializer (P : Type) (initializer : P -> T) (params : P).

Arguments InitialValue {T} initialValue.
Arguments Initializer {T} P initializer params.

(** ** The monad of heap computations *)

Inductive Completion (A : Type) : Type :=
| Normal (a : A)
| Throw (e : Error).

Arguments Normal {A} a.
Arguments Throw {A} e.

Section Code.

Context {T : Type}.

Definition JS (A : Type) : Type := Heap T -> Completion A * Heap T.

Definition ret {A} (a : A) : JS A := fun h => (Normal a, h).

Definition bind {A B} (m : JS A) (k : A -> JS B) : JS B :=
  fun h =>
    match m h with
    | (Normal a, h') => k a h'
    | (Throw e, h') => (Throw e, h')
    end.

Definition throw {A} (e : Error) : JS A := fun h => (Throw e, h).

Definition read {A} (f : Heap T -> A) : JS A := fun h => (Normal (f h), h).

Definition write (f : Heap T -> Heap T) : JS unit := fun h => (Normal tt, f h).

(** [try { m } catch (e) { }], keeping the completion as a value. *)
Definition try {A} (m : JS A) : JS (Completion A) :=
  fun h => let (c, h') := m h in (Normal c, h').

Local Notation "x <- m ;; k" := (bind m (fun x => k))
  (at level 61, m at next level, right associativity).
Local Notation "m ;;; k" := (bind m (fun _ => k))
  (at level 61, right associativity).

(** *** Heap accessors used by the source *)

(** [mutexRef.current[borrow]] *)
Definition current_borrow (h : Heap T) : option symbol := borrow (mutexRef h).

(** [mutexRef.current.value] *)
Definition current_value (h : Heap T) : T := value (mutexRef h).

(** [mutexRef.current[borrow] = b] *)
Definition assign_borrow (b : option symbol) (h : Heap T) : Heap T :=
  {| mutexRef := {| value := value (mutexRef h); borrow := b |};
     symbols := symbols h;
     views := views h |}.

(** [mutexRef.current.value = v] *)
Definition assign_value (v : T) (h : Heap T) : Heap T :=
  {| mutexRef := {| value := v; borrow := borrow (mutexRef h) |};
     symbols := symbols h;
     views := views h |}.

(** The view object built by [Object.freeze({...})] enters the heap. *)
Definition allocate (r : MutexResource) (h : Heap T) : Heap T :=
  {| mutexRef := mutexRef h;
     symbols := symbols h;
     views := r :: views h |}.

(** [Symbol('mutex:borrow')] *)
Definition Symbol : JS symbol :=
  fun h => (Normal (symbols h),
            {| mutexRef := mutexRef h;
               symbols := S (symbols h);
               views := views h |}).

(** *** createMutexResource *)

(** [const isReleased = () => token !== mutexRef.current[borrow]] *)
Definition isReleased (r : MutexResource) : JS bool :=
  b <- read current_borrow ;;
  ret (negb (strict_eq (Some (token r)) b)).

Definition release (r : MutexResource) : JS unit :=
  stale <- isReleased r ;;
  if stale then throw MutexAccessRevokedError
  else write (assign_borrow None).

Definition get (r : MutexResource) : JS T :=
  stale <- isReleased r ;;
  if stale then throw MutexAccessRevokedError
  else read current_value.

Definition set (r : MutexResource) (v : T) : JS unit :=
  stale <- isReleased r ;;
  if stale then throw MutexAccessRevokedError
  else write (assign_value v).

Definition createMutexResource : JS MutexResource :=
  t <- Symbol ;;
  write (allocate {| token := t |}) ;;;
  ret {| token := t |}.

(** *** useMutex *)

(** The body of the hook up to the returned object: the cell of [useRef]
    is initialised only when it is still [null]. *)
Definition useMutex (init : Init T) (cell : option (MutexInternal T))
  : MutexInternal T :=
  match cell with
  | Some m => m
  | None =>
      {| borrow := None;
         value := match init with
                  | InitialValue v => v
                  | Initializer _ f p => f p
                  end |}
  end.

(** [isAvailable: () => mutexRef.current![borrow] === null] *)
Definition isAvailable : JS bool :=
  b <- read current_borrow ;;
  ret (strict_eq b None).

Definition acquire : JS MutexResource :=
  b <- read current_borrow ;;
  if negb (strict_eq b None) then throw MutexLockedError
  else
    resourceView <- createMutexResource ;;
    write (assign_borrow (Some (token resourceView))) ;;;
    ret resourceView.

(** The heap right after the first render of a component calling
    [useMutex init], in a runtime that has created [n] symbols so far. *)
Definition mount (init : Init T) (n : nat) : Heap T :=
  {| mutexRef := useMutex init None; symbols := n; views := [] |}.

(** ** Sequences of operations *)

(** What a client of the hook can do: call a method of the mutex, call a
    method of a view, or render the component again.  A call names its view
    by value, so the sequences below include every sequence a client can
    write with the views [acquire] returned to it. *)
Inductive Op : Type :=
| CallIsAvailable
| CallAcquire
| CallIsReleased (r : MutexResource)
| CallRelease (r : MutexResource)
| CallGet (r : MutexResource)
| CallSet (r : MutexResource) (v : T)
| Render (init : Init T).

Inductive Returned : Type :=
| RUndefined
| RBoolean (b : bool)
| RView (r : MutexResource)
| RValue (v : T).

Definition perform (o : Op) : JS Returned :=
  match o with
  | CallIsAvailable => b <- isAvailable ;; ret (RBoolean b)
  | CallAcquire => r <- acquire ;; ret (RView r)
  | CallIsReleased r => b <- isReleased r ;; ret (RBoolean b)
  | CallRelease r => release r ;;; ret RUndefined
  | CallGet r => v <- get r ;; ret (RValue v)
  | CallSet r v => set r v ;;; ret RUndefined
  | Render init =>
      write (fun h => {| mutexRef := useMutex init (Some (mutexRef h));
                         symbols := symbols h;
                         views := views h |}) ;;;
      ret RUndefined
  end.

(** The heap after one operation, whether it returned or threw. *)
Definition exec (o : Op) (h : Heap T) : Heap T := snd (perform o h).

Definition run (ops : list Op) (h : Heap T) : Heap T :=
  fold_left (fun h o => exec o h) ops h.

(** The heaps a component can be in. *)
Definition reachable (h : Heap T) : Prop :=
  exists init n ops, h = run ops (mount init n).

(** A view is live when its token is the current holder. *)
Definition live (r : MutexResource) (h : Heap T) : Prop :=
  current_borrow h = Some (token r).

Definition isLive (r : MutexResource) (h : Heap T) : bool :=
  strict_eq (Some (token r)) (current_borrow h).

(** Is some allocated view live? *)
Definition someLive (h : Heap T) : bool :=
  existsb (fun r => isLive r h) (views h).

(** The invariant of the guard: tokens of allocated views are symbols
    already created, and the holder is the token of an allocated view. *)
Definition inv (h : Heap T) : Prop :=
  (forall r, In r (views h) -> token r < symbols h) /\
  (forall t, current_borrow h = Some t -> In {| token := t |} (views h)).

(** A view that can never be the holder again: its token is an old symbol
    and is not the current holder. *)
Definition revoked (r : MutexResource) (h : Heap T) : Prop :=
  token r < symbols h /\ current_borrow h <> Some (token r).

(** The heap after a successful [acquire]. *)
Definition acquired (h : Heap T) : Heap T :=
  {| mutexRef := {| value := current_value h; borrow := Some (symbols h) |};
     symbols := S (symbols h);
     views := {| token := symbols h |} :: views h |}.

(** The state machine of the guard, Free and Held: what one operation can
    do to the heap. *)
Inductive step : Heap T -> Heap T -> Prop :=
| step_idle h :
    step h h
| step_acquire h :
    current_borrow h = None -> step h (acquired h)
| step_release h r :
    live r h -> step h (assign_borrow None h)
| step_set h r v :
    live r h -> step h (assign_value v h).

(** An operation that neither writes through [r] nor releases it. *)
Definition keeps (r : MutexResource) (o : Op) : bool :=
  match o with
  | CallRelease r' => negb (Nat.eqb (token r') (token r))
  | CallSet r' _ => negb (Nat.eqb (token r') (token r))
  | _ => true
  end.

End Code.

Declare Scope js_scope.
Delimit Scope js_scope with js.
Notation "x <- m ;; k" := (bind m (fun x => k))
  (at level 61, m at next level, right associativity) : js_scope.
Notation "m ;;; k" := (bind m (fun _ => k))
  (at level 61, right associativity) : js_scope.

Local Open Scope js_scope.

(** ** A client program *)

(** The scenario of the documentation, on a number. *)
Definition scenario
  : JS (T:=Z) (Completion unit * Completion MutexResource * Completion Z *
               Completion unit * Completion Z * Completion Z) :=
  h1 <- acquire ;;
  c1 <- try (set h1 42%Z) ;;
  c2 <- try acquire ;;
  c3 <- try (get h1) ;;
  c4 <- try (release h1) ;;
  c5 <- try (get h1) ;;
  h3 <- acquire ;;
  c6 <- try (get h3) ;;
  ret (c1, c2, c3, c4, c5, c6).

(** ** error.ts: the messages *)

(** The string each constructor passes to [super]. *)
Definition message (e : Error) : String.string :=
  match e with
  | MutexLockedError =>
      "Mutex was acquired while already in use."%string
  | MutexAccessRevokedError =>
      "A resource view associated to some mutex was accessed after its release."%string
  end.

(** ** Observing sequences of operations *)

Section Traces.

Context {T : Type}.

(** Did the call return, rather than throw? *)
Definition returned {A : Type} (c : Completion A) : bool :=
  match c with
  | Normal _ => true
  | Throw _ => false
  end.

(** One call, as the client sees it: what it completed with and the heap
    it left. *)
Inductive performs : Op (T:=T) -> Heap T -> Completion (Returned (T:=T)) -> Heap T -> Prop :=
| performs_isAvailable h :
    performs CallIsAvailable h
      (Normal (RBoolean (strict_eq (current_borrow h) None))) h
| performs_acquire_free h :
    current_borrow h = None ->
    performs CallAcquire h (Normal (RView {| token := symbols h |})) (acquired h)
| performs_acquire_held h :
    current_borrow h <> None ->
    performs CallAcquire h (Throw MutexLockedError) h
| performs_isReleased r h :
    performs (CallIsReleased r) h (Normal (RBoolean (negb (isLive r h)))) h
| performs_release_live r h :
    live r h ->
    performs (CallRelease r) h (Normal RUndefined) (assign_borrow None h)
| performs_release_stale r h :
    ~ live r h ->
    performs (CallRelease r) h (Throw MutexAccessRevokedError) h
| performs_get_live r h :
    live r h ->
    performs (CallGet r) h (Normal (RValue (current_value h))) h
| performs_get_stale r h :
    ~ live r h ->
    performs (CallGet r) h (Throw MutexAccessRevokedError) h
| performs_set_live r v h :
    live r h ->
    performs (CallSet r v) h (Normal RUndefined) (assign_value v h)
| performs_set_stale r v h :
    ~ live r h ->
    performs (CallSet r v) h (Throw MutexAccessRevokedError) h
| performs_render init h :
    performs (Render init) h (Normal RUndefined) h.

Definition isAcquire (o : Op (T:=T)) : bool :=
  match o with
  | CallAcquire => true
  | _ => false
  end.

Definition isRelease (o : Op (T:=T)) : bool :=
  match o with
  | CallRelease _ => true
  | _ => false
  end.

Definition isSet (o : Op (T:=T)) : bool :=
  match o with
  | CallSet _ _ => true
  | _ => false
  end.

(** A release through a view with the token of [r]. *)
Definition releases (r : MutexResource) (o : Op (T:=T)) : bool :=
  match o with
  | CallRelease r' => Nat.eqb (token r') (token r)
  | _ => false
  end.

(** The calls that only look: the two probes, [get], and a render. *)
Definition passive (o : Op (T:=T)) : bool :=
  match o with
  | CallIsAvailable | CallIsReleased _ | CallGet _ | Render _ => true
  | CallAcquire | CallRelease _ | CallSet _ _ => false
  end.

(** How many of the calls selected by [p] returned, running [ops] from [h]. *)
Fixpoint count_returned (p : Op (T:=T) -> bool) (ops : list Op) (h : Heap T) : nat :=
  match ops with
  | [] => 0
  | o :: ops' =>
      (if p o && returned (fst (perform o h)) then 1 else 0)
      + count_returned p ops' (exec o h)
  end.

(** 1 when the guard is held, 0 when it is free. *)
Definition held (h : Heap T) : nat :=
  match current_borrow h with
  | Some _ => 1
  | None => 0
  end.

(** The allocated views that are live. *)
Definition liveViews (h : Heap T) : list MutexResource :=
  filter (fun r => isLive r h) (views h).


(** The order in which views enter the heap: tokens are pairwise distinct
    old symbols, and the holder is the token of the newest view. *)
Definition ordered (h : Heap T) : Prop :=
  NoDup (map token (views h)) /\
  (forall r, In r (views h) -> token r < symbols h) /\
  (forall t, current_borrow h = Some t ->
             exists rest, views h = {| token := t |} :: rest).

End Traces.

(** ** Basic facts *)

Section Facts.

Context {T : Type}.
Implicit Types (h : Heap T) (r : MutexResource) (o : Op (T:=T)).

Lemma strict_eq_true (a b : option symbol) : strict_eq a b = true <-> a = b.
Proof.
  destruct a as [x|], b as [y|]; simpl; split; intros E;
    try discriminate; try reflexivity.
  - apply Nat.eqb_eq in E. now subst.
  - injection E as ->. apply Nat.eqb_refl.
Qed.

Lemma strict_eq_false (a b : option symbol) : strict_eq a b = false <-> a <> b.
Proof.
  rewrite <- not_true_iff_false, strict_eq_true. reflexivity.
Qed.

Lemma isLive_true r h : isLive r h = true <-> live r h.
Proof.
  unfold isLive, live. rewrite strict_eq_true. split; congruence.
Qed.

Lemma isLive_false r h : isLive r h = false <-> ~ live r h.
Proof.
  rewrite <- not_true_iff_false, isLive_true. reflexivity.
Qed.

(** Running a bind and a try once the first computation is known. *)
Lemma bind_run {A B} (m : JS A) (k : A -> JS B) h a h' :
  m h = (Normal a, h') -> bind m k h = k a h'.
Proof. intros E. unfold bind. now rewrite E. Qed.

Lemma try_run {A} (m : JS A) h c h' :
  m h = (c, h') -> try m h = (Normal c, h').
Proof. intros E. unfold try. now rewrite E. Qed.

(** The two probes never throw and never write. *)
Lemma isReleased_probe r h : isReleased r h = (Normal (negb (isLive r h)), h).
Proof. reflexivity. Qed.

Lemma isAvailable_probe h :
  isAvailable h = (Normal (strict_eq (current_borrow h) None), h).
Proof. reflexivity. Qed.

Lemma isReleased_false r h :
  isReleased r h = (Normal false, h) <-> live r h.
Proof.
  rewrite isReleased_probe, <- isLive_true. split.
  - intros E. injection E as E. now apply negb_false_iff.
  - intros ->. reflexivity.
Qed.

Lemma isReleased_true r h :
  isReleased r h = (Normal true, h) <-> ~ live r h.
Proof.
  rewrite isReleased_probe, <- isLive_false. split.
  - intros E. injection E as E. now apply negb_true_iff.
  - intros ->. reflexivity.
Qed.

(** *** The methods, by cases on the state of the guard *)

Lemma release_live r h :
  live r h -> release r h = (Normal tt, assign_borrow None h).
Proof.
  intros L. unfold release, bind. rewrite isReleased_probe.
  apply isLive_true in L. rewrite L. reflexivity.
Qed.

Lemma release_stale r h :
  ~ live r h -> release r h = (Throw MutexAccessRevokedError, h).
Proof.
  intros L. unfold release, bind. rewrite isReleased_probe.
  apply isLive_false in L. rewrite L. reflexivity.
Qed.

Lemma get_live r h : live r h -> get r h = (Normal (current_value h), h).
Proof.
  intros L. unfold get, bind. rewrite isReleased_probe.
  apply isLive_true in L. rewrite L. reflexivity.
Qed.

Lemma get_stale r h : ~ live r h -> get r h = (Throw MutexAccessRevokedError, h).
Proof.
  intros L. unfold get, bind. rewrite isReleased_probe.
  apply isLive_false in L. rewrite L. reflexivity.
Qed.

Lemma set_live r v h : live r h -> set r v h = (Normal tt, assign_value v h).
Proof.
  intros L. unfold set, bind. rewrite isReleased_probe.
  apply isLive_true in L. rewrite L. reflexivity.
Qed.

Lemma set_stale r v h :
  ~ live r h -> set r v h = (Throw MutexAccessRevokedError, h).
Proof.
  intros L. unfold set, bind. rewrite isReleased_probe.
  apply isLive_false in L. rewrite L. reflexivity.
Qed.

Lemma acquire_free h :
  current_borrow h = None ->
  acquire h = (Normal {| token := symbols h |}, acquired h).
Proof.
  intros F. unfold acquire, bind, read. rewrite F. reflexivity.
Qed.

Lemma acquire_held h :
  current_borrow h <> None -> acquire h = (Throw MutexLockedError, h).
Proof.
  intros F. unfold acquire, bind, read.
  destruct (current_borrow h); [reflexivity | congruence].
Qed.

Lemma live_dec r h : {live r h} + {~ live r h}.
Proof.
  destruct (isLive r h) eqn:E.
  - left. now apply isLive_true.
  - right. now apply isLive_false.
Qed.

(** Rendering again leaves the cell alone. *)
Lemma useMutex_again (init : Init T) (m : MutexInternal T) :
  useMutex init (Some m) = m.
Proof. reflexivity. Qed.

(** *** Every operation is a step of the state machine *)

Lemma exec_step o h : step h (exec o h).
Proof.
  destruct o as [ | | r | r | r | r v | init]; unfold exec, perform, bind.
  - rewrite isAvailable_probe. apply step_idle.
  - destruct (current_borrow h) as [t|] eqn:F.
    + rewrite acquire_held by congruence. apply step_idle.
    + rewrite acquire_free by assumption. now apply step_acquire.
  - rewrite isReleased_probe. apply step_idle.
  - destruct (live_dec r h) as [L|L].
    + rewrite release_live by assumption. now apply step_release with r.
    + rewrite release_stale by assumption. apply step_idle.
  - destruct (live_dec r h) as [L|L].
    + rewrite get_live by assumption. apply step_idle.
    + rewrite get_stale by assumption. apply step_idle.
  - destruct (live_dec r h) as [L|L].
    + rewrite set_live by assumption. now apply step_set with r.
    + rewrite set_stale by assumption. apply step_idle.
  - destruct h as [m s vs]. simpl. apply step_idle.
Qed.

Lemma run_app (ops1 ops2 : list Op) h :
  run (ops1 ++ ops2) h = run ops2 (run ops1 h).
Proof. apply fold_left_app. Qed.

Lemma run_cons o (ops : list Op) h : run (o :: ops) h = run ops (exec o h).
Proof. reflexivity. Qed.

Lemma reachable_run (ops : list Op) h : reachable h -> reachable (run ops h).
Proof.
  intros (init & n & ops0 & ->). exists init, n, (ops0 ++ ops).
  symmetry. apply run_app.
Qed.

(** *** The invariant *)

Lemma inv_mount (init : Init T) n : inv (mount init n).
Proof.
  split.
  - intros r [].
  - intros t E. discriminate E.
Qed.

Lemma inv_step h h' : step h h' -> inv h -> inv h'.
Proof.
  intros S [Hold Hin]. destruct S as [h | h F | h r L | h r v L]; split; simpl.
  - exact Hold.
  - exact Hin.
  - intros r [<- | I]; simpl; [lia |]. specialize (Hold r I). lia.
  - intros t E. unfold current_borrow in E. simpl in E.
    injection E as <-. now left.
  - exact Hold.
  - intros t E. discriminate E.
  - exact Hold.
  - exact Hin.
Qed.

Lemma inv_run (ops : list Op) h : inv h -> inv (run ops h).
Proof.
  revert h. induction ops as [|o ops IH]; intros h I; [exact I|].
  rewrite run_cons. apply IH. eapply inv_step; [apply exec_step | exact I].
Qed.

Lemma inv_reachable h : reachable h -> inv h.
Proof.
  intros (init & n & ops & ->). apply inv_run, inv_mount.
Qed.

(** Views are never removed from the heap and symbols never forgotten. *)
Lemma step_grows h h' :
  step h h' -> incl (views h) (views h') /\ symbols h <= symbols h'.
Proof.
  intros S. destruct S; simpl; split; auto using incl_refl, incl_tl.
Qed.

Lemma run_grows (ops : list Op) h :
  incl (views h) (views (run ops h)) /\ symbols h <= symbols (run ops h).
Proof.
  revert h. induction ops as [|o ops IH]; intros h.
  - split; [apply incl_refl | apply Nat.le_refl].
  - rewrite run_cons. destruct (step_grows (exec_step o h)) as [I1 S1].
    destruct (IH (exec o h)) as [I2 S2]. split.
    + eapply incl_tran; eassumption.
    + lia.
Qed.

(** *** Revocation is stable *)

Lemma revoked_step r h h' : step h h' -> revoked r h -> revoked r h'.
Proof.
  intros S [Lt Ne]. destruct S as [h | h F | h r' L | h r' v L];
    unfold revoked, current_borrow in *; simpl; split; auto; try lia.
  - intros E. injection E as E. lia.
  - discriminate.
Qed.

Lemma revoked_run r (ops : list Op) h : revoked r h -> revoked r (run ops h).
Proof.
  revert h. induction ops as [|o ops IH]; intros h R; [exact R|].
  rewrite run_cons. apply IH. eapply revoked_step; [apply exec_step | exact R].
Qed.

Lemma revoked_not_live r h : revoked r h -> ~ live r h.
Proof. intros [_ Ne] L. now apply Ne. Qed.

End Facts.

(** Run the first computation of a bind, given its equation. *)
Ltac js_run E :=
  erewrite bind_run by (first [exact E | apply try_run; exact E]).

(** ** The model on concrete heaps *)

Example mount_initializer :
  current_value (mount (Initializer nat Z.of_nat 5) 0) = 5%Z.
Proof. reflexivity. Qed.

Example perform_acquire :
  perform CallAcquire (mount (InitialValue 1%Z) 4) =
  (Normal (RView {| token := 4 |}),
   {| mutexRef := {| value := 1%Z; borrow := Some 4 |};
      symbols := 5;
      views := [{| token := 4 |}] |}).
Proof. reflexivity. Qed.

Example perform_acquire_twice :
  fst (perform CallAcquire (exec CallAcquire (mount (InitialValue 1%Z) 4))) =
  Throw MutexLockedError.
Proof. reflexivity. Qed.

Example run_cycle :
  run [CallAcquire; CallSet {| token := 0 |} 8%Z; CallRelease {| token := 0 |};
       CallSet {| token := 0 |} 9%Z; CallAcquire; Render (InitialValue 3%Z)]
      (mount (InitialValue 1%Z) 0) =
  {| mutexRef := {| value := 8%Z; borrow := Some 1 |};
     symbols := 2;
     views := [{| token := 1 |}; {| token := 0 |}] |}.
Proof. reflexivity. Qed.

Example run_cycle_probes :
  let h := run [CallAcquire; CallRelease {| token := 0 |}; CallAcquire]
               (mount (InitialValue 1%Z) 0) in
  map (fun r => fst (isReleased r h)) (views h) = [Normal false; Normal true] /\
  fst (isAvailable h) = Normal false.
Proof. split; reflexivity. Qed.

(** ** The properties of the guard *)

(** C1. After any sequence of operations on a mounted guard,
    [isAvailable()] returns [true] exactly when no allocated view is live,
    and [false] exactly when some allocated view answers [false] to
    [isReleased()]. *)
Theorem available_iff_no_live_view {T : Type} (init : Init T) (n : nat) (ops : list (Op (T:=T))) :
  let h := run ops (mount init n) in
  isAvailable h = (Normal (negb (someLive h)), h) /\
  (isAvailable h = (Normal true, h) <->
   forall r, In r (views h) -> isReleased r h = (Normal true, h)) /\
  (isAvailable h = (Normal false, h) <->
   exists r, In r (views h) /\ isReleased r h = (Normal false, h)).
Proof.
  intros h.
  assert (I : inv h) by apply inv_run, inv_mount.
  destruct I as [_ Hin].
  assert (E : strict_eq (current_borrow h) None = negb (someLive h)).
  { unfold someLive. destruct (current_borrow h) as [t|] eqn:F; simpl.
    - symmetry. apply negb_false_iff, existsb_exists.
      exists {| token := t |}. split; [now apply Hin |].
      unfold isLive. rewrite F. simpl. apply Nat.eqb_refl.
    - symmetry. apply negb_true_iff, not_true_iff_false.
      intros X. apply existsb_exists in X as (r & _ & L).
      unfold isLive in L. rewrite F in L. discriminate L. }
  rewrite isAvailable_probe, E. split; [reflexivity |]. split.
  - split.
    + intros A r I. injection A as A. apply negb_true_iff in A.
      apply isReleased_true, isLive_false.
      destruct (isLive r h) eqn:L; [| reflexivity].
      assert (X : someLive h = true)
        by (apply existsb_exists; exists r; now split).
      congruence.
    + intros A. f_equal. f_equal. apply negb_true_iff, not_true_iff_false.
      intros X. apply existsb_exists in X as (r & I & L).
      specialize (A r I). apply isReleased_true, isLive_false in A. congruence.
  - split.
    + intros A. injection A as A. apply negb_false_iff in A.
      apply existsb_exists in A as (r & I & L). exists r. split; [exact I |].
      now apply isReleased_false, isLive_true.
    + intros (r & I & A). apply isReleased_false, isLive_true in A.
      f_equal. f_equal. apply negb_false_iff, existsb_exists.
      exists r. now split.
Qed.

(** C2. On a held guard [acquire()] throws [MutexLockedError] and the heap
    is the one it started in: same value, same holder, no symbol created
    and no view allocated; the guard still answers [false] to
    [isAvailable()]. *)
Theorem acquire_held_throws {T : Type} (h : Heap T) :
  current_borrow h <> None ->
  acquire h = (Throw MutexLockedError, h) /\
  isAvailable h = (Normal false, h).
Proof.
  intros F. split; [now apply acquire_held |].
  rewrite isAvailable_probe. f_equal. f_equal.
  apply strict_eq_false. exact F.
Qed.

Lemma acquire_held_throws_witness :
  let h : Heap Z := acquired (mount (InitialValue 0%Z) 0) in
  current_borrow h <> None /\
  acquire h = (Throw MutexLockedError, h) /\
  isAvailable h = (Normal false, h).
Proof.
  intros h. split; [discriminate |].
  apply (@acquire_held_throws Z h). discriminate.
Defined.

(** C3. On a free guard [acquire()] returns a view whose token is a new
    symbol, different from the token of every view allocated before; the
    holder becomes that token, the value is kept, and right away
    [isAvailable()] and the view's [isReleased()] both return [false]. *)
Theorem acquire_free_mints {T : Type} (h : Heap T) :
  reachable h ->
  current_borrow h = None ->
  exists r h',
    acquire h = (Normal r, h') /\
    (forall r0, In r0 (views h) -> token r0 <> token r) /\
    ~ In r (views h) /\
    views h' = r :: views h /\
    current_borrow h' = Some (token r) /\
    current_value h' = current_value h /\
    isAvailable h' = (Normal false, h') /\
    isReleased r h' = (Normal false, h').
Proof.
  intros R F. destruct (inv_reachable R) as [Hold _].
  exists {| token := symbols h |}, (acquired h).
  split; [now apply acquire_free |].
  assert (D : forall r0, In r0 (views h) -> token r0 <> symbols h).
  { intros r0 I. specialize (Hold r0 I). lia. }
  split; [exact D |]. split.
  { intros I. now apply (D _ I). }
  repeat split.
  rewrite isReleased_probe. unfold isLive, current_borrow. simpl.
  rewrite Nat.eqb_refl. reflexivity.
Qed.

Lemma acquire_free_mints_witness :
  let h : Heap Z :=
    run [CallAcquire; CallRelease {| token := 3 |}] (mount (InitialValue 0%Z) 3) in
  reachable h /\ current_borrow h = None /\
  exists r h',
    acquire h = (Normal r, h') /\
    (forall r0, In r0 (views h) -> token r0 <> token r) /\
    ~ In r (views h) /\
    views h' = r :: views h /\
    current_borrow h' = Some (token r) /\
    current_value h' = current_value h /\
    isAvailable h' = (Normal false, h') /\
    isReleased r h' = (Normal false, h').
Proof.
  intros h.
  assert (R : reachable h).
  { exists (InitialValue 0%Z), 3,
      [CallAcquire; CallRelease {| token := 3 |}]. reflexivity. }
  split; [exact R |]. split; [reflexivity |].
  apply (@acquire_free_mints Z h R). reflexivity.
Defined.

(** C4. [release()] on a live view returns, clears the holder and keeps
    the value, so [isAvailable()] returns [true]; after any further
    operations that view's [isReleased()] returns [true] and its
    [release()] throws [MutexAccessRevokedError] without changing the
    heap. *)
Theorem release_once {T : Type} (h : Heap T) (r : MutexResource) :
  reachable h ->
  isReleased r h = (Normal false, h) ->
  exists h1,
    release r h = (Normal tt, h1) /\
    current_borrow h1 = None /\
    current_value h1 = current_value h /\
    isAvailable h1 = (Normal true, h1) /\
    forall ops : list (Op (T:=T)),
      let h2 := run ops h1 in
      isReleased r h2 = (Normal true, h2) /\
      release r h2 = (Throw MutexAccessRevokedError, h2).
Proof.
  intros R L. apply isReleased_false in L.
  destruct (inv_reachable R) as [Hold Hin].
  exists (assign_borrow None h). split; [now apply release_live |].
  repeat split.
  - apply isReleased_true, revoked_not_live, revoked_run.
    split; simpl.
    + specialize (Hold _ (Hin _ L)). exact Hold.
    + discriminate.
  - apply release_stale, revoked_not_live, revoked_run.
    split; simpl.
    + specialize (Hold _ (Hin _ L)). exact Hold.
    + discriminate.
Qed.

Lemma release_once_witness :
  let h : Heap Z := run [CallAcquire] (mount (InitialValue 0%Z) 0) in
  let r := {| token := 0 |} in
  reachable h /\ isReleased r h = (Normal false, h) /\
  exists h1,
    release r h = (Normal tt, h1) /\
    current_borrow h1 = None /\
    current_value h1 = current_value h /\
    isAvailable h1 = (Normal true, h1) /\
    forall ops : list (Op (T:=Z)),
      let h2 := run ops h1 in
      isReleased r h2 = (Normal true, h2) /\
      release r h2 = (Throw MutexAccessRevokedError, h2).
Proof.
  intros h r.
  assert (R : reachable h).
  { exists (InitialValue 0%Z), 0, [CallAcquire]. reflexivity. }
  split; [exact R |]. split; [reflexivity |].
  apply (@release_once Z h r R). reflexivity.
Defined.

(** C5. Once an allocated view answers [true] to [isReleased()], it
    answers [true] after every further sequence of operations, acquire and
    release cycles included. *)
Theorem released_forever {T : Type} (h : Heap T) (r : MutexResource) :
  reachable h ->
  In r (views h) ->
  isReleased r h = (Normal true, h) ->
  forall ops : list (Op (T:=T)),
    isReleased r (run ops h) = (Normal true, run ops h).
Proof.
  intros R I L ops. apply isReleased_true in L.
  destruct (inv_reachable R) as [Hold _].
  apply isReleased_true, revoked_not_live, revoked_run.
  split; [now apply Hold |]. intros E. now apply L.
Qed.

Lemma released_forever_witness :
  let h : Heap Z :=
    run [CallAcquire; CallRelease {| token := 0 |}] (mount (InitialValue 0%Z) 0) in
  let r := {| token := 0 |} in
  reachable h /\ In r (views h) /\ isReleased r h = (Normal true, h) /\
  forall ops : list (Op (T:=Z)),
    isReleased r (run ops h) = (Normal true, run ops h).
Proof.
  intros h r.
  assert (R : reachable h).
  { exists (InitialValue 0%Z), 0,
      [CallAcquire; CallRelease {| token := 0 |}]. reflexivity. }
  split; [exact R |]. split; [now left |]. split; [reflexivity |].
  apply (@released_forever Z h r R); [now left | reflexivity].
Defined.

(** C6. On a view that answers [true] to [isReleased()], [get()] and
    [set(v)] throw [MutexAccessRevokedError] and the heap, the guarded
    value included, is the one they started in. *)
Theorem stale_get_set_throw {T : Type} (h : Heap T) (r : MutexResource) :
  isReleased r h = (Normal true, h) ->
  get r h = (Throw MutexAccessRevokedError, h) /\
  forall v : T, set r v h = (Throw MutexAccessRevokedError, h).
Proof.
  intros L. apply isReleased_true in L. split.
  - now apply get_stale.
  - intros v. now apply set_stale.
Qed.

Lemma stale_get_set_throw_witness :
  let h : Heap Z := mount (InitialValue 7%Z) 1 in
  let r := {| token := 0 |} in
  isReleased r h = (Normal true, h) /\
  get r h = (Throw MutexAccessRevokedError, h) /\
  forall v : Z, set r v h = (Throw MutexAccessRevokedError, h).
Proof.
  intros h r. split; [reflexivity |].
  apply (@stale_get_set_throw Z h r). reflexivity.
Defined.

(** Operations that neither write through a live view nor release it
    leave it live and leave the value alone. *)
Lemma exec_keeps {T : Type} (h : Heap T) (r : MutexResource) (o : Op) :
  keeps r o = true ->
  live r h ->
  live r (exec o h) /\ current_value (exec o h) = current_value h.
Proof.
  intros K L.
  assert (Other : forall r', negb (Nat.eqb (token r') (token r)) = true ->
                             ~ live r' h).
  { intros r' N L'. unfold live in L, L'. rewrite L in L'.
    injection L' as E. apply negb_true_iff, Nat.eqb_neq in N. congruence. }
  destruct o as [ | | r' | r' | r' | r' v' | init];
    unfold exec, perform, bind; simpl in K.
  - rewrite isAvailable_probe. now split.
  - rewrite acquire_held; [now split |]. unfold live in L. congruence.
  - rewrite isReleased_probe. now split.
  - rewrite release_stale by now apply Other. now split.
  - destruct (live_dec r' h) as [L'|L'].
    + rewrite get_live by assumption. now split.
    + rewrite get_stale by assumption. now split.
  - rewrite set_stale by now apply Other. now split.
  - destruct h as [m s vs]. now split.
Qed.

Lemma run_keeps {T : Type} (r : MutexResource) (ops : list Op) (h : Heap T) :
  forallb (keeps r) ops = true ->
  live r h ->
  live r (run ops h) /\ current_value (run ops h) = current_value h.
Proof.
  revert h. induction ops as [|o ops IH]; intros h K L; [now split |].
  simpl in K. apply andb_true_iff in K as [Ko K].
  destruct (@exec_keeps _ h r o Ko L) as [L1 V1].
  rewrite run_cons. destruct (IH _ K L1) as [L2 V2].
  split; [exact L2 | congruence].
Qed.

(** C7. On a live view, [set(v)] followed by [get()] returns [v]; so does
    a [get()] after any operations in between that neither write through
    the view nor release it. *)
Theorem set_then_get {T : Type} (h : Heap T) (r : MutexResource) (v : T) :
  isReleased r h = (Normal false, h) ->
  bind (set r v) (fun _ => get r) h = (Normal v, assign_value v h) /\
  forall ops : list (Op (T:=T)),
    forallb (keeps r) ops = true ->
    let h' := run ops (exec (CallSet r v) h) in
    get r h' = (Normal v, h').
Proof.
  intros L. apply isReleased_false in L.
  assert (L1 : live r (assign_value v h)) by exact L.
  split.
  - unfold bind at 1. rewrite set_live by assumption.
    now rewrite get_live.
  - intros ops K h'.
    assert (E : exec (CallSet r v) h = assign_value v h).
    { unfold exec, perform, bind. now rewrite set_live. }
    subst h'. rewrite E.
    destruct (@run_keeps _ r ops _ K L1) as [L2 V2].
    rewrite get_live by assumption. now rewrite V2.
Qed.

Lemma set_then_get_witness :
  let h : Heap Z := acquired (mount (InitialValue 0%Z) 0) in
  let r := {| token := 0 |} in
  isReleased r h = (Normal false, h) /\
  bind (set r 5%Z) (fun _ => get r) h = (Normal 5%Z, assign_value 5%Z h) /\
  forall ops : list (Op (T:=Z)),
    forallb (keeps r) ops = true ->
    let h' := run ops (exec (CallSet r 5%Z) h) in
    get r h' = (Normal 5%Z, h').
Proof.
  intros h r. split; [reflexivity |].
  apply (@set_then_get Z h r 5%Z). reflexivity.
Defined.

(** C8. From a free guard, [acquire()], [release()] on the view and
    [acquire()] again all return; the two views have different tokens;
    [get()], [set(v)] and [release()] on the second view return, while the
    first view answers [true] to [isReleased()], throws on use, and stays
    so after any further operations. *)
Theorem acquire_release_acquire {T : Type} (h : Heap T) :
  current_borrow h = None ->
  exists r1 h1 h2 r2 h3,
    acquire h = (Normal r1, h1) /\
    release r1 h1 = (Normal tt, h2) /\
    acquire h2 = (Normal r2, h3) /\
    token r2 <> token r1 /\
    isReleased r2 h3 = (Normal false, h3) /\
    get r2 h3 = (Normal (current_value h), h3) /\
    (forall v : T, set r2 v h3 = (Normal tt, assign_value v h3)) /\
    release r2 h3 = (Normal tt, assign_borrow None h3) /\
    get r1 h3 = (Throw MutexAccessRevokedError, h3) /\
    (forall v : T, set r1 v h3 = (Throw MutexAccessRevokedError, h3)) /\
    release r1 h3 = (Throw MutexAccessRevokedError, h3) /\
    forall ops : list (Op (T:=T)),
      isReleased r1 (run ops h3) = (Normal true, run ops h3).
Proof.
  intros F.
  set (r1 := {| token := symbols h |}).
  set (h1 := acquired h).
  set (h2 := assign_borrow None h1).
  set (r2 := {| token := S (symbols h) |}).
  set (h3 := acquired h2).
  assert (L1 : live r1 h1) by reflexivity.
  assert (L2 : live r2 h3) by reflexivity.
  assert (R1 : revoked r1 h3).
  { split; simpl; [lia |]. unfold current_borrow. simpl.
    intros E. injection E as E. lia. }
  pose proof (revoked_not_live R1) as N1.
  exists r1, h1, h2, r2, h3.
  split; [now apply acquire_free |].
  split; [now apply release_live |].
  split; [now apply acquire_free |].
  split; [simpl; lia |].
  split; [now apply isReleased_false |].
  split; [now rewrite get_live |].
  split; [intros v; now apply set_live |].
  split; [now apply release_live |].
  split; [now apply get_stale |].
  split; [intros v; now apply set_stale |].
  split; [now apply release_stale |].
  intros ops. now apply isReleased_true, revoked_not_live, revoked_run.
Qed.

Lemma acquire_release_acquire_witness :
  let h : Heap Z := mount (InitialValue 0%Z) 0 in
  current_borrow h = None /\
  exists r1 h1 h2 r2 h3,
    acquire h = (Normal r1, h1) /\
    release r1 h1 = (Normal tt, h2) /\
    acquire h2 = (Normal r2, h3) /\
    token r2 <> token r1 /\
    isReleased r2 h3 = (Normal false, h3) /\
    get r2 h3 = (Normal (current_value h), h3) /\
    (forall v : Z, set r2 v h3 = (Normal tt, assign_value v h3)) /\
    release r2 h3 = (Normal tt, assign_borrow None h3) /\
    get r1 h3 = (Throw MutexAccessRevokedError, h3) /\
    (forall v : Z, set r1 v h3 = (Throw MutexAccessRevokedError, h3)) /\
    release r1 h3 = (Throw MutexAccessRevokedError, h3) /\
    forall ops : list (Op (T:=Z)),
      isReleased r1 (run ops h3) = (Normal true, run ops h3).
Proof.
  intros h. split; [reflexivity |].
  apply (@acquire_release_acquire Z h). reflexivity.
Defined.

(** C9. The scenario on a guard mounted with the value 0: the first
    [acquire()] returns [h1]; [h1.set(42)] returns; a second [acquire()]
    throws [MutexLockedError]; [h1.get()] returns 42; [h1.release()]
    returns; [h1.get()] then throws [MutexAccessRevokedError]; a third
    [acquire()] returns [h3] and [h3.get()] returns 42. *)
Theorem scenario_runs (n : nat) :
  scenario (mount (InitialValue 0%Z) n) =
  (Normal (Normal tt,
           Throw MutexLockedError,
           Normal 42%Z,
           Normal tt,
           Throw MutexAccessRevokedError,
           Normal 42%Z),
   {| mutexRef := {| value := 42%Z; borrow := Some (S n) |};
      symbols := S (S n);
      views := [{| token := S n |}; {| token := n |}] |}).
Proof.
  set (s0 := mount (InitialValue 0%Z) n).
  set (h1 := {| token := n |}).
  set (s1 := acquired s0).
  set (s2 := assign_value 42%Z s1).
  set (s3 := assign_borrow None s2).
  set (h3 := {| token := S n |}).
  set (s4 := acquired s3).
  assert (L1 : live h1 s1) by reflexivity.
  assert (L2 : live h1 s2) by reflexivity.
  assert (N3 : ~ live h1 s3) by discriminate.
  assert (L4 : live h3 s4) by reflexivity.
  unfold scenario.
  js_run (acquire_free s0 eq_refl).
  js_run (set_live 42%Z L1).
  js_run (@acquire_held Z s2 ltac:(discriminate)).
  js_run (get_live L2).
  js_run (release_live L2).
  js_run (get_stale N3).
  js_run (acquire_free s3 eq_refl).
  js_run (get_live L4).
  reflexivity.
Qed.

(** C10. On a live view, [set(v)] returns and writes the value only: the
    holder, the symbols and the views are as before, so the view is still
    live and its [get()], [set()] and [release()] still return. *)
Theorem set_writes_value_only {T : Type} (h : Heap T) (r : MutexResource) (v : T) :
  isReleased r h = (Normal false, h) ->
  exists h',
    set r v h = (Normal tt, h') /\
    current_value h' = v /\
    current_borrow h' = current_borrow h /\
    symbols h' = symbols h /\
    views h' = views h /\
    isReleased r h' = (Normal false, h') /\
    get r h' = (Normal v, h') /\
    (forall v' : T, set r v' h' = (Normal tt, assign_value v' h')) /\
    release r h' = (Normal tt, assign_borrow None h').
Proof.
  intros L. apply isReleased_false in L.
  assert (L' : live r (assign_value v h)) by exact L.
  exists (assign_value v h).
  split; [now apply set_live |].
  do 4 (split; [reflexivity |]).
  split; [now apply isReleased_false |].
  split; [now rewrite get_live |].
  split; [intros v'; now apply set_live |].
  now apply release_live.
Qed.

Lemma set_writes_value_only_witness :
  let h : Heap Z := acquired (mount (InitialValue 0%Z) 0) in
  let r := {| token := 0 |} in
  isReleased r h = (Normal false, h) /\
  exists h',
    set r 9%Z h = (Normal tt, h') /\
    current_value h' = 9%Z /\
    current_borrow h' = current_borrow h /\
    symbols h' = symbols h /\
    views h' = views h /\
    isReleased r h' = (Normal false, h') /\
    get r h' = (Normal 9%Z, h') /\
    (forall v' : Z, set r v' h' = (Normal tt, assign_value v' h')) /\
    release r h' = (Normal tt, assign_borrow None h').
Proof.
  intros h r. split; [reflexivity |].
  apply (@set_writes_value_only Z h r 9%Z). reflexivity.
Defined.

(** ** Further properties of the code *)

(** *** One call at a time *)

(** Every call completes in one of the ways listed by [performs]. *)
Lemma perform_cases {T : Type} (o : Op) (h h' : Heap T) (c : Completion Returned) :
  perform o h = (c, h') -> performs o h c h'.
Proof.
  intros E.
  destruct o as [ | | r | r | r | r v | init]; unfold perform, bind in E.
  - rewrite isAvailable_probe in E. injection E as <- <-. constructor.
  - destruct (current_borrow h) as [t|] eqn:F.
    + rewrite acquire_held in E by congruence. injection E as <- <-.
      constructor. congruence.
    + rewrite acquire_free in E by assumption. injection E as <- <-.
      now constructor.
  - rewrite isReleased_probe in E. injection E as <- <-. constructor.
  - destruct (live_dec r h) as [L|L].
    + rewrite release_live in E by assumption. injection E as <- <-.
      now constructor.
    + rewrite release_stale in E by assumption. injection E as <- <-.
      now constructor.
  - destruct (live_dec r h) as [L|L].
    + rewrite get_live in E by assumption. injection E as <- <-.
      now constructor.
    + rewrite get_stale in E by assumption. injection E as <- <-.
      now constructor.
  - destruct (live_dec r h) as [L|L].
    + rewrite set_live in E by assumption. injection E as <- <-.
      now constructor.
    + rewrite set_stale in E by assumption. injection E as <- <-.
      now constructor.
  - destruct h as [m s vs]. injection E as <- <-. constructor.
Qed.

Lemma perform_performs {T : Type} (o : Op) (h : Heap T) :
  performs o h (fst (perform o h)) (exec o h).
Proof. apply perform_cases. unfold exec. now destruct (perform o h). Qed.

(** Distinct errors carry distinct messages. *)
Lemma message_injective (e1 e2 : Error) : message e1 = message e2 -> e1 = e2.
Proof. destruct e1, e2; simpl; intros E; try reflexivity; discriminate E. Qed.

(** X1. A call that throws leaves the heap exactly as it found it:
    whichever method fails, the value, the holder, the symbols and the
    views are untouched. *)
Theorem throw_keeps_heap {T : Type} (o : Op) (h h' : Heap T) (e : Error) :
  perform o h = (Throw e, h') -> h' = h.
Proof.
  intros E. apply perform_cases in E.
  inversion E; subst; reflexivity.
Qed.

Lemma throw_keeps_heap_witness :
  let h : Heap Z := run [CallAcquire; CallRelease {| token := 0 |}]
                        (mount (InitialValue 3%Z) 0) in
  perform (CallSet {| token := 0 |} 4%Z) h = (Throw MutexAccessRevokedError, h) /\
  h = h.
Proof.
  intros h. split; [reflexivity |].
  apply (@throw_keeps_heap Z (CallSet {| token := 0 |} 4%Z) h h
           MutexAccessRevokedError).
  reflexivity.
Defined.

(** X2. Which error a call can throw: [acquire] only
    [MutexLockedError], and only on a held guard; [release], [get] and
    [set] only [MutexAccessRevokedError], and only through a view that is
    not live; the probes and a render never throw. *)
Theorem thrown_error_kind {T : Type} (o : Op) (h : Heap T) (e : Error) :
  fst (perform o h) = Throw e ->
  match o with
  | CallAcquire => e = MutexLockedError /\ current_borrow h <> None
  | CallRelease r | CallGet r | CallSet r _ =>
      e = MutexAccessRevokedError /\ ~ live r h
  | CallIsAvailable | CallIsReleased _ | Render _ => False
  end.
Proof.
  intros E. pose proof (perform_performs o h) as P. rewrite E in P.
  inversion P; subst; now split.
Qed.

Lemma thrown_error_kind_witness :
  let h : Heap Z := acquired (mount (InitialValue 3%Z) 0) in
  fst (perform CallAcquire h) = Throw MutexLockedError /\
  (MutexLockedError = MutexLockedError /\ current_borrow h <> None).
Proof.
  intros h. split; [reflexivity |].
  apply (@thrown_error_kind Z CallAcquire h MutexLockedError). reflexivity.
Defined.

(** X3. The documented conditions are exact: [acquire()] returns exactly
    when [isAvailable()] returns [true], and each of [release()], [get()]
    and [set(v)] returns exactly when the view's [isReleased()] returns
    [false]. *)
Theorem returns_iff_probe {T : Type} (h : Heap T) (r : MutexResource) (v : T) :
  (returned (fst (acquire h)) = true <-> isAvailable h = (Normal true, h)) /\
  (returned (fst (release r h)) = true <-> isReleased r h = (Normal false, h)) /\
  (returned (fst (get r h)) = true <-> isReleased r h = (Normal false, h)) /\
  (returned (fst (set r v h)) = true <-> isReleased r h = (Normal false, h)).
Proof.
  split.
  - rewrite isAvailable_probe.
    destruct (current_borrow h) as [t|] eqn:F.
    + rewrite acquire_held by congruence. simpl.
      split; intros E; discriminate E.
    + rewrite acquire_free by assumption. simpl. now split.
  - rewrite isReleased_false.
    destruct (live_dec r h) as [L|L].
    + rewrite release_live, get_live, set_live by assumption. simpl.
      repeat split; auto.
    + rewrite release_stale, get_stale, set_stale by assumption. simpl.
      repeat split; intros E; try discriminate E; contradiction.
Qed.

(** *** The order of views *)

Lemma ordered_mount {T : Type} (init : Init T) (n : nat) : ordered (mount init n).
Proof.
  split; [constructor |]. split.
  - intros r [].
  - intros t E. discriminate E.
Qed.

Lemma ordered_step {T : Type} (h h' : Heap T) : step h h' -> ordered h -> ordered h'.
Proof.
  intros S (ND & Hold & Hd).
  destruct S as [h | h F | h r L | h r v L]; unfold ordered; simpl.
  - auto.
  - split; [| split].
    + constructor; [| exact ND]. intros I. apply in_map_iff in I as (r & E & I).
      specialize (Hold r I). lia.
    + intros r [<- | I]; simpl; [lia |]. specialize (Hold r I). lia.
    + intros t E. unfold current_borrow in E. simpl in E. injection E as <-.
      now exists (views h).
  - split; [exact ND |]. split; [exact Hold |]. intros t E. discriminate E.
  - split; [exact ND |]. split; [exact Hold |]. exact Hd.
Qed.

Lemma ordered_run {T : Type} (ops : list Op) (h : Heap T) :
  ordered h -> ordered (run ops h).
Proof.
  revert h. induction ops as [|o ops IH]; intros h I; [exact I |].
  rewrite run_cons. apply IH. eapply ordered_step; [apply exec_step | exact I].
Qed.

Lemma filter_nil {A : Type} (f : A -> bool) (l : list A) :
  (forall x, In x l -> f x = false) -> filter f l = [].
Proof.
  induction l as [|x l IH]; intros H; [reflexivity |]. simpl.
  rewrite (H x) by now left. apply IH. intros y I. apply H. now right.
Qed.

(** X4. Mutual exclusion: after any sequence of operations on a mounted
    guard, exactly one allocated view is live when the guard is held, and
    none when it is free; two live allocated views never coexist. *)
Theorem one_live_view_when_held {T : Type} (init : Init T) (n : nat) (ops : list Op) :
  let h := run ops (mount init n) in
  List.length (liveViews h) = held h /\
  forall r1 r2,
    In r1 (views h) -> In r2 (views h) ->
    isReleased r1 h = (Normal false, h) ->
    isReleased r2 h = (Normal false, h) ->
    r1 = r2.
Proof.
  intros h.
  assert (O : ordered h) by apply ordered_run, ordered_mount.
  destruct O as (ND & _ & Hd). split.
  - unfold liveViews, held. destruct (current_borrow h) as [t|] eqn:F.
    + destruct (Hd t eq_refl) as [rest E]. rewrite E in *. simpl.
      unfold isLive at 1. rewrite F. simpl. rewrite Nat.eqb_refl. simpl.
      f_equal. rewrite filter_nil; [reflexivity |].
      intros r I. unfold isLive. rewrite F. simpl. apply Nat.eqb_neq.
      intros X. inversion ND as [| ? ? NI _]; subst. apply NI.
      apply in_map_iff. exists r. now split.
    + rewrite filter_nil; [reflexivity |].
      intros r _. unfold isLive. now rewrite F.
  - intros [t1] [t2] _ _ L1 L2. apply isReleased_false in L1, L2.
    unfold live in L1, L2. simpl in *. congruence.
Qed.

(** X5. The holder is always the view returned by the latest successful
    [acquire()]: on a held guard the newest allocated view is the live
    one, and every older view is released. *)
Theorem holder_is_newest_view {T : Type} (init : Init T) (n : nat) (ops : list Op) :
  let h := run ops (mount init n) in
  forall t, current_borrow h = Some t ->
    exists rest,
      views h = {| token := t |} :: rest /\
      isReleased {| token := t |} h = (Normal false, h) /\
      forall r, In r rest -> isReleased r h = (Normal true, h).
Proof.
  intros h t F.
  assert (O : ordered h) by apply ordered_run, ordered_mount.
  destruct O as (ND & _ & Hd). destruct (Hd t F) as [rest E].
  exists rest. split; [exact E |]. split.
  - now apply isReleased_false.
  - intros r I. apply isReleased_true. unfold live. rewrite F.
    intros X. injection X as X. rewrite E in ND. simpl in ND.
    inversion ND as [| ? ? NI _]; subst. apply NI.
    apply in_map_iff. exists r. now split.
Qed.

Lemma holder_is_newest_view_witness :
  let h : Heap Z :=
    run [CallAcquire; CallRelease {| token := 0 |}; CallAcquire]
        (mount (InitialValue 3%Z) 0) in
  current_borrow h = Some 1 /\
  exists rest,
    views h = {| token := 1 |} :: rest /\
    isReleased {| token := 1 |} h = (Normal false, h) /\
    forall r, In r rest -> isReleased r h = (Normal true, h).
Proof.
  intros h. split; [reflexivity |].
  apply (@holder_is_newest_view Z (InitialValue 3%Z) 0
           [CallAcquire; CallRelease {| token := 0 |}; CallAcquire] 1).
  reflexivity.
Defined.

(** *** Calls that leave the heap alone *)

Lemma exec_passive {T : Type} (o : Op) (h : Heap T) :
  passive o = true -> exec o h = h.
Proof.
  intros P. pose proof (perform_performs o h) as E.
  remember (exec o h) as h' eqn:Eh. remember (fst (perform o h)) as c eqn:Ec.
  clear Eh Ec. destruct E; simpl in P; try discriminate P; reflexivity.
Qed.

(** X6. The probes, [get()] and renders can be dropped from any sequence
    of calls, or inserted anywhere, without changing the heap the
    sequence ends in. *)
Theorem passive_calls_drop {T : Type} (ops : list Op) (h : Heap T) :
  run (filter (fun o => negb (passive o)) ops) h = run ops h.
Proof.
  revert h. induction ops as [|o ops IH]; intros h; [reflexivity |].
  simpl filter. destruct (passive o) eqn:P; simpl negb; cbv iota.
  - rewrite run_cons, (exec_passive o h P). apply IH.
  - rewrite !run_cons. apply IH.
Qed.

Lemma exec_value {T : Type} (o : Op) (h : Heap T) :
  isSet o = false -> current_value (exec o h) = current_value h.
Proof.
  intros P. pose proof (perform_performs o h) as E.
  remember (exec o h) as h' eqn:Eh. remember (fst (perform o h)) as c eqn:Ec.
  clear Eh Ec. destruct E; simpl in P; try discriminate P; reflexivity.
Qed.

(** X7. Only [set] writes the value: a sequence of calls without a
    [set], whatever it acquires, releases, reads or renders, ends with the
    value it started with. *)
Theorem value_kept_without_set {T : Type} (ops : list Op) (h : Heap T) :
  forallb (fun o => negb (isSet o)) ops = true ->
  current_value (run ops h) = current_value h.
Proof.
  revert h. induction ops as [|o ops IH]; intros h K; [reflexivity |].
  simpl in K. apply andb_true_iff in K as [Ko K].
  apply negb_true_iff in Ko.
  rewrite run_cons, (IH _ K). now apply exec_value.
Qed.

Lemma value_kept_without_set_witness :
  let h : Heap Z := mount (Initializer nat Z.of_nat 6) 0 in
  let ops : list (Op (T:=Z)) :=
    [CallAcquire; CallGet {| token := 0 |}; CallRelease {| token := 0 |};
     Render (InitialValue 1%Z); CallAcquire] in
  forallb (fun o => negb (isSet o)) ops = true /\
  current_value (run ops h) = current_value h.
Proof.
  intros h ops. split; [reflexivity |].
  apply (@value_kept_without_set Z ops h). reflexivity.
Defined.

Lemma exec_holds {T : Type} (r : MutexResource) (o : Op) (h : Heap T) :
  live r h ->
  releases r o = false ->
  live r (exec o h) /\ isAcquire o && returned (fst (perform o h)) = false.
Proof.
  intros L P. pose proof (perform_performs o h) as E.
  remember (exec o h) as h' eqn:Eh. remember (fst (perform o h)) as c eqn:Ec.
  clear Eh Ec. destruct E; simpl in P; simpl; try (now split).
  - unfold live in L. congruence.
  - exfalso. unfold live in *. rewrite L in H. injection H as H.
    apply Nat.eqb_neq in P. congruence.
Qed.

(** X8. Only the holder can free the guard: while a view is live, any
    sequence of calls that does not release through that view leaves it
    live; the guard stays unavailable and no [acquire()] in the sequence
    returns. *)
Theorem holder_keeps_guard {T : Type} (r : MutexResource) (ops : list Op) (h : Heap T) :
  isReleased r h = (Normal false, h) ->
  forallb (fun o => negb (releases r o)) ops = true ->
  let h' := run ops h in
  isReleased r h' = (Normal false, h') /\
  isAvailable h' = (Normal false, h') /\
  count_returned isAcquire ops h = 0.
Proof.
  intros L K h'. apply isReleased_false in L.
  assert (G : live r h' /\ count_returned isAcquire ops h = 0).
  { subst h'. revert h L. induction ops as [|o ops IH]; intros h L.
    - now split.
    - simpl in K. apply andb_true_iff in K as [Ko K].
      apply negb_true_iff in Ko.
      destruct (exec_holds o L Ko) as [L1 A1].
      destruct (IH K _ L1) as [L2 A2].
      rewrite run_cons. split; [exact L2 |].
      simpl. rewrite A1, A2. reflexivity. }
  destruct G as [L' A]. split; [now apply isReleased_false |].
  split; [| exact A].
  rewrite isAvailable_probe. unfold live in L'. now rewrite L'.
Qed.

Lemma holder_keeps_guard_witness :
  let h : Heap Z := acquired (mount (InitialValue 3%Z) 0) in
  let r := {| token := 0 |} in
  let ops : list (Op (T:=Z)) :=
    [CallAcquire; CallRelease {| token := 1 |}; CallSet r 5%Z;
     Render (InitialValue 0%Z); CallAcquire] in
  isReleased r h = (Normal false, h) /\
  forallb (fun o => negb (releases r o)) ops = true /\
  let h' := run ops h in
  isReleased r h' = (Normal false, h') /\
  isAvailable h' = (Normal false, h') /\
  count_returned isAcquire ops h = 0.
Proof.
  intros h r ops. split; [reflexivity |]. split; [reflexivity |].
  apply (@holder_keeps_guard Z r ops h); reflexivity.
Defined.

(** X9. The last write wins: through a live view, [set(v1)] followed by
    [set(v2)] completes and leaves the heap exactly as [set(v2)] alone. *)
Theorem set_twice {T : Type} (h : Heap T) (r : MutexResource) (v1 v2 : T) :
  isReleased r h = (Normal false, h) ->
  bind (set r v1) (fun _ => set r v2) h = set r v2 h /\
  set r v2 h = (Normal tt, assign_value v2 h).
Proof.
  intros L. apply isReleased_false in L.
  assert (L1 : live r (assign_value v1 h)) by exact L.
  split; [| now apply set_live].
  unfold bind. rewrite (set_live v1 L), (set_live v2 L1), (set_live v2 L).
  reflexivity.
Qed.

Lemma set_twice_witness :
  let h : Heap Z := acquired (mount (InitialValue 3%Z) 0) in
  let r := {| token := 0 |} in
  isReleased r h = (Normal false, h) /\
  bind (set r 1%Z) (fun _ => set r 2%Z) h = set r 2%Z h /\
  set r 2%Z h = (Normal tt, assign_value 2%Z h).
Proof.
  intros h r. split; [reflexivity |].
  apply (@set_twice Z h r 1%Z 2%Z). reflexivity.
Defined.

(** *** Counting acquisitions and releases *)

Lemma exec_counts {T : Type} (o : Op) (h : Heap T) :
  let a := if isAcquire o && returned (fst (perform o h)) then 1 else 0 in
  let b := if isRelease o && returned (fst (perform o h)) then 1 else 0 in
  a + held h = b + held (exec o h) /\
  List.length (views (exec o h)) = a + List.length (views h) /\
  symbols (exec o h) = a + symbols h.
Proof.
  pose proof (perform_performs o h) as E.
  remember (exec o h) as h' eqn:Eh. remember (fst (perform o h)) as c eqn:Ec.
  clear Eh Ec. destruct E; simpl; unfold held; simpl; auto.
  - rewrite H. auto.
  - unfold live in H. rewrite H. auto.
Qed.

Lemma run_counts {T : Type} (ops : list Op) (h : Heap T) :
  count_returned isAcquire ops h + held h
  = count_returned isRelease ops h + held (run ops h) /\
  List.length (views (run ops h))
  = count_returned isAcquire ops h + List.length (views h) /\
  symbols (run ops h) = count_returned isAcquire ops h + symbols h.
Proof.
  revert h. induction ops as [|o ops IH]; intros h; [now repeat split |].
  rewrite run_cons. destruct (exec_counts o h) as (B1 & V1 & S1).
  destruct (IH (exec o h)) as (B2 & V2 & S2).
  simpl count_returned. repeat split; lia.
Qed.

(** X10. Acquisitions and releases balance: over any sequence of calls on
    a mounted guard, the [acquire()] calls that returned are the
    [release()] calls that returned, plus one when the guard ends held;
    each returned [acquire()] allocated one view and consumed one symbol,
    and nothing else did. *)
Theorem acquires_balance_releases {T : Type} (init : Init T) (n : nat) (ops : list Op) :
  let h0 := mount init n in
  let h := run ops h0 in
  count_returned isAcquire ops h0 = count_returned isRelease ops h0 + held h /\
  List.length (views h) = count_returned isAcquire ops h0 /\
  symbols h = n + count_returned isAcquire ops h0.
Proof.
  intros h0 h. destruct (run_counts ops h0) as (B & V & S).
  fold h in B, V, S. unfold h0 in B, V, S at 2. simpl in B, V, S.
  unfold held in B at 1. simpl in B. fold h0 in B, V, S.
  repeat split; lia.
Qed.

(** *** Renders *)


